(** * PIConGPU: plane-wave laser profile and the momentum-component attribute

    A shallow embedding of

    - [laserPlaneWave.hpp]: [laserLongitudinal] and [laserTransversal];
    - the derived attribute [MomentumComponent<T_direction>] and its
      [SpeciesEligibleForSolver] specialisation.

    Numbers.  The C++ code computes in [double] and narrows to [float_X].
    Both are embedded as the real numbers [R]: every arithmetic operator and
    [sqrt], [exp], [sin], [cos] is the one of the Standard Library's reals,
    the narrowing [float_X( . )] is the identity, and a comparison is the
    decidable order of [R].  Rounding, overflow, infinities and NaN are
    outside the model.  Division is [Rdiv], which is total. *)

From Stdlib Require Import Reals Lra Lia List NArith ZArith String Bool.
Import ListNotations.
Open Scope R_scope.

(** ** Scalar and vector types *)

Abbreviation double := R (only parsing).
Abbreviation float_X := R (only parsing).
Abbreviation float_64 := R (only parsing).

(** [uint32_t]: only converted to a floating-point number, never used in
    integer arithmetic, so no wrap-around is involved. *)
Abbreviation uint32_t := N (only parsing).

(** [size_t], the type of the template parameter [T_direction]. *)
Abbreviation size_t := N (only parsing).

(** The conversion [float_X( d )] of a [double]. *)
Definition to_float_X (d : double) : float_X := d.

(** The implicit conversion of an unsigned integer to a floating-point
    number. *)
Definition of_uint32_t (n : uint32_t) : R := IZR (Z.of_N n).

Module float3_X.

Record t : Type := mk { x : float_X; y : float_X; z : float_X }.

(** [float3_X::create(v)]: all three components are [v]. *)
Definition create (v : float_X) : t := mk v v v.

(** Assignments [e.x() = v] and [e.z() = v]. *)
Definition set_x (e : t) (v : float_X) : t := mk v (y e) (z e).
Definition set_z (e : t) (v : float_X) : t := mk (x e) (y e) v.

(** [v[d]].  The index is in range wherever the program uses it; out of
    range the C++ access is undefined, here it reads 0. *)
Definition get (v : t) (d : size_t) : float_X :=
  match d with
  | 0%N => x v
  | 1%N => y v
  | 2%N => z v
  | _ => 0
  end.

End float3_X.

(** ** Laser configuration *)

(** Modelled from the spec: the enumeration of polarisation modes, one of
    [LINEAR_X], [LINEAR_Z], [CIRCULAR].  Its declaration is in the laser
    configuration header, which is not among the sources; the three
    enumerators are those [laserLongitudinal] compares [Polarisation] with.
    A C++ enumeration object may also hold a value equal to none of its
    enumerators: [NO_ENUMERATOR] stands for any such value, for which all
    three comparisons of the code are false. *)
Inductive PolarisationType : Type :=
| LINEAR_X
| LINEAR_Z
| CIRCULAR
| NO_ENUMERATOR.

(** The constants of [simulation_defines.hpp] that [laserLongitudinal]
    reads.  Their definitions are not among the sources, so they are
    parameters of the model. *)
Record LaserConfig : Type := {
  DELTA_T : R;
  SPEED_OF_LIGHT : R;
  WAVE_LENGTH : R;
  AMPLITUDE : R;
  RAMP_INIT : R;
  PULSE_LENGTH : R;
  LASER_NOFOCUS_CONSTANT : R;
  LASER_PHASE : R;
  Polarisation : PolarisationType
}.

(** ** [namespace laserPlaneWave] *)

Module laserPlaneWave.

Section Profile.

Variable cfg : LaserConfig.

(** [const double runTime = DELTA_T*currentStep;] *)
Definition runTime (currentStep : uint32_t) : double :=
  DELTA_T cfg * of_uint32_t currentStep.

(** [const double mue = 0.5 * RAMP_INIT * PULSE_LENGTH;] *)
Definition mue : double := 0.5 * RAMP_INIT cfg * PULSE_LENGTH cfg.

Definition endUpramp : double := mue.
Definition startDownramp : double := mue + LASER_NOFOCUS_CONSTANT cfg.

(** [const double w = 2.0 * PI * f;] with [f = SPEED_OF_LIGHT / WAVE_LENGTH]. *)
Definition f : double := SPEED_OF_LIGHT cfg / WAVE_LENGTH cfg.
Definition w : double := 2 * PI * f.

(** The local variables [envelope] and [integrationCorrectionFactor] after
    the [if / else if] that selects the ramp, as a function of [runTime]. *)
Definition envelope_and_correction (runTime : double) : double * double :=
  let envelope := AMPLITUDE cfg in
  let integrationCorrectionFactor := 0 in
  if Rgt_dec runTime startDownramp then
    let exponent := (runTime - startDownramp) / PULSE_LENGTH cfg / sqrt 2 in
    (envelope * exp (-0.5 * exponent * exponent),
     (runTime - startDownramp) / (2 * PULSE_LENGTH cfg * PULSE_LENGTH cfg))
  else if Rlt_dec runTime endUpramp then
    let exponent := (runTime - endUpramp) / PULSE_LENGTH cfg / sqrt 2 in
    (envelope * exp (-0.5 * exponent * exponent),
     (runTime - endUpramp) / (2 * PULSE_LENGTH cfg * PULSE_LENGTH cfg))
  else
    (envelope, integrationCorrectionFactor).

Definition envelope (runTime : double) : double :=
  fst (envelope_and_correction runTime).

Definition integrationCorrectionFactor (runTime : double) : double :=
  snd (envelope_and_correction runTime).

(** [const double t_and_phase = w * timeOszi + LASER_PHASE;] *)
Definition timeOszi (runTime : double) : double := runTime - endUpramp.
Definition t_and_phase (runTime : double) : double :=
  w * timeOszi runTime + LASER_PHASE cfg.

(** The field vector for a given [runTime]: created all-zero, then the
    branch of the polarisation assigns its components. *)
Definition elong_at (runTime : double) : float3_X.t :=
  let envelope := envelope runTime in
  let icf := integrationCorrectionFactor runTime in
  let tp := t_and_phase runTime in
  let elong := float3_X.create 0 in
  match Polarisation cfg with
  | LINEAR_X =>
      float3_X.set_x elong (to_float_X (envelope * (sin tp + cos tp * icf)))
  | LINEAR_Z =>
      float3_X.set_z elong (to_float_X (envelope * (sin tp + cos tp * icf)))
  | CIRCULAR =>
      let elong :=
        float3_X.set_x elong
          (to_float_X (envelope / sqrt 2 * (sin tp + cos tp * icf))) in
      float3_X.set_z elong
        (to_float_X (envelope / sqrt 2 * (cos tp - sin tp * icf)))
  | NO_ENUMERATOR => elong
  end.

(** [laserLongitudinal( currentStep, phase )].  The reference parameter
    [phase] is threaded: the function takes its value at the call and
    returns, beside the field vector, its value at the return. *)
Definition laserLongitudinal (currentStep : uint32_t) (phase : float_X)
  : float3_X.t * float_X :=
  let elong := elong_at (runTime currentStep) in
  let phase := to_float_X 0 in
  (elong, phase).

End Profile.

(** [laserTransversal( elong, posX, posY, posZ )]: the three positions are
  unnamed parameters. *)
Definition laserTransversal (elong : float3_X.t) (_ _ _ : float_X)
: float3_X.t := elong.

End laserPlaneWave.

(** ** Particle species and identifiers *)

(** Identifiers of per-particle attributes.  The sources name [position<>]
    and [momentum]; [weighting] and [attribute] stand for the further
    attributes a frame may declare. *)
Inductive identifier : Type :=
| position
| momentum
| weighting
| attribute (name : string).

Definition identifier_eqb (a b : identifier) : bool :=
  match a, b with
  | position, position => true
  | momentum, momentum => true
  | weighting, weighting => true
  | attribute n, attribute m => String.eqb n m
  | _, _ => false
  end.

(** A frame type: the sequence of identifiers it declares. *)
Record Frame : Type := { ValueTypeSeq : list identifier }.

(** A species type; [T_Species::FrameType] is its frame. *)
Record Species : Type := { FrameType : Frame }.

(** A particle as the attribute functor reads it. *)
Record Particle : Type := {
  particle_position : float3_X.t;
  particle_momentum : float3_X.t
}.

(** Modelled from the spec: [pmacc::traits::HasIdentifiers] is declared in
    [pmacc/traits/HasIdentifiers.hpp], which is not among the sources.  Its
    [type] is true exactly when every identifier of the required sequence is
    declared by the frame (a set-containment test). *)
Definition HasIdentifiers (frame : Frame) (required : list identifier) : bool :=
  forallb
    (fun r => existsb (identifier_eqb r) (ValueTypeSeq frame))
    required.

(** Modelled from the spec: [PMACC_CASSERT_MSG( msg, cond )] is defined in
    [pmacc/static_assert.hpp], which is not among the sources.  It is a
    build-time assertion: when [cond] is false the build fails with the
    message [msg].  [None] is a passed assertion. *)
Definition PMACC_CASSERT_MSG (msg : string) (cond : bool) : option string :=
  if cond then None else Some msg.

(** The outcome of instantiating a template: the instance, or the message
    of the static assertion that stopped the build. *)
Inductive Instantiation (A : Type) : Type :=
| Instantiated (a : A)
| StaticAssertionFailed (msg : string).

Arguments Instantiated {A} a.
Arguments StaticAssertionFailed {A} msg.

(** Modelled from the spec: [math::abs] of a three-component vector, its
    Euclidean length [|p|]. *)
Definition vector_abs (p : float3_X.t) : float_X :=
  sqrt (float3_X.x p * float3_X.x p
        + float3_X.y p * float3_X.y p
        + float3_X.z p * float3_X.z p).

(** ** [struct MomentumComponent< T_direction >] *)

Module MomentumComponent.

(** An instance of the template; it has no data members, the template
    parameter is all that distinguishes two instances. *)
Record t : Type := mk { T_direction : size_t }.

Definition Valid_directions_are_0_to_2_for_X_to_Z__in_fileOutput_param
  : string :=
  "Valid_directions_are_0_to_2_for_X_to_Z__in_fileOutput_param".

(** The two conditions asserted in the body of the struct. *)
Definition assertion_ge_0 (T_direction : size_t) : bool :=
  (0 <=? T_direction)%N.
Definition assertion_lt_3 (T_direction : size_t) : bool :=
  (T_direction <? 3)%N.

(** Instantiating [MomentumComponent< T_direction >]: the two static
    assertions are checked in the order they are written. *)
Definition instantiate (T_direction : size_t) : Instantiation t :=
  match
    PMACC_CASSERT_MSG
      Valid_directions_are_0_to_2_for_X_to_Z__in_fileOutput_param
      (assertion_ge_0 T_direction)
  with
  | Some msg => StaticAssertionFailed msg
  | None =>
      match
        PMACC_CASSERT_MSG
          Valid_directions_are_0_to_2_for_X_to_Z__in_fileOutput_param
          (assertion_lt_3 T_direction)
      with
      | Some msg => StaticAssertionFailed msg
      | None => Instantiated (mk T_direction)
      end
  end.

(** [std::vector<float_64> unitDimension( 7, 0.0 ); return unitDimension;] *)
Definition getUnitDimension (self : t) : list float_64 :=
  let unitDimension := repeat 0 7 in
  unitDimension.

Definition getName : string := "particleMomentumComponent".

(** Modelled from the spec: [operator()] is only declared in the sources,
    its definition is in a file that is not among them.  The spec gives
    [p[d] / |p|] if [|p| > 0], else [0], for the momentum [p] of the
    particle and the axis [d = T_direction]. *)
Definition call (self : t) (particle : Particle) : float_X :=
  let p := particle_momentum particle in
  let absMom := vector_abs p in
  if Rgt_dec absMom 0 then
    float3_X.get p (T_direction self) / absMom
  else
    0.

End MomentumComponent.

(** ** [traits::SpeciesEligibleForSolver] *)

(** The trait, as a class over the solver type: each specialisation is an
    instance that decides eligibility of a species for that solver. *)
Class SpeciesEligibleForSolver (T_Solver : Type) : Type :=
  eligible : Species -> T_Solver -> bool.

(** [using RequiredIdentifiers = MakeSeq_t< position<>, momentum >;] *)
Definition RequiredIdentifiers : list identifier := [position; momentum].

(** The specialisation for [MomentumComponent< T_direction >]: its [type]
    is [HasIdentifiers< FrameType, RequiredIdentifiers >::type], whatever
    the direction. *)
#[export] Instance SpeciesEligibleForSolver_MomentumComponent
  : SpeciesEligibleForSolver MomentumComponent.t :=
  fun T_Species _ => HasIdentifiers (FrameType T_Species) RequiredIdentifiers.


(** ** The regimes in the spec's words

    The formulas the spec gives for a ramp anchored at [c] ([endUpramp] for
    the upramp, [startDownramp] for the downramp), written as the spec
    writes them; the theorems compare them with what the code computes. *)

Definition spec_ramp_envelope (cfg : LaserConfig) (c t : R) : R :=
  AMPLITUDE cfg * exp (-0.5 * ((t - c) / (PULSE_LENGTH cfg * sqrt 2)) ^ 2).

Definition spec_ramp_correction (cfg : LaserConfig) (c t : R) : R :=
  (t - c) / (2 * PULSE_LENGTH cfg ^ 2).

(** The carrier phase of the spec, [omega * (t - endUpramp) + phaseOffset]
    with [omega = 2 pi c / wavelength]. *)
Definition spec_theta (cfg : LaserConfig) (t : R) : R :=
  2 * PI * SPEED_OF_LIGHT cfg / WAVE_LENGTH cfg
  * (t - laserPlaneWave.endUpramp cfg)
  + LASER_PHASE cfg.

(** The three regimes read as three independent cases, each guarded by its
    own condition only. *)
Definition regimes_as_independent_cases
  (cfg : LaserConfig) (currentStep : uint32_t) : Prop :=
  let t := laserPlaneWave.runTime cfg currentStep in
  let eu := laserPlaneWave.endUpramp cfg in
  let sd := laserPlaneWave.startDownramp cfg in
  (t < eu ->
     laserPlaneWave.envelope cfg t = spec_ramp_envelope cfg eu t
     /\ laserPlaneWave.integrationCorrectionFactor cfg t
        = spec_ramp_correction cfg eu t)
  /\ (t > sd ->
     laserPlaneWave.envelope cfg t = spec_ramp_envelope cfg sd t
     /\ laserPlaneWave.integrationCorrectionFactor cfg t
        = spec_ramp_correction cfg sd t)
  /\ (~ t < eu -> ~ t > sd ->
     laserPlaneWave.envelope cfg t = AMPLITUDE cfg
     /\ laserPlaneWave.integrationCorrectionFactor cfg t = 0).

(** ** Auxiliary functions for the continuity argument *)

(** The signed distance of [t] to the plateau [[endUpramp, startDownramp]],
    with the case distinction of the code. *)
Definition plateau_offset (cfg : LaserConfig) (t : R) : R :=
  if Rgt_dec t (laserPlaneWave.startDownramp cfg) then
    t - laserPlaneWave.startDownramp cfg
  else if Rlt_dec t (laserPlaneWave.endUpramp cfg) then
    t - laserPlaneWave.endUpramp cfg
  else 0.

(** The Gaussian of the ramps as a function of that distance, with the
    code's expression for the exponent. *)
Definition gaussian (cfg : LaserConfig) (u : R) : R :=
  AMPLITUDE cfg
  * exp (-0.5 * (u / PULSE_LENGTH cfg / sqrt 2)
              * (u / PULSE_LENGTH cfg / sqrt 2)).

(** ** Sample configurations and inputs *)

(** A pulse with a plateau: [endUpramp = 2], [startDownramp = 5], one time
    unit per step. *)
Definition cfg_plateau (pol : PolarisationType) : LaserConfig :=
  {| DELTA_T := 1; SPEED_OF_LIGHT := 1; WAVE_LENGTH := 1; AMPLITUDE := 1;
     RAMP_INIT := 4; PULSE_LENGTH := 1; LASER_NOFOCUS_CONSTANT := 3;
     LASER_PHASE := 0; Polarisation := pol |}.

(** A configuration with a negative plateau length: [endUpramp = 2] but
    [startDownramp = 0]. *)
Definition cfg_negative_plateau : LaserConfig :=
  {| DELTA_T := 1; SPEED_OF_LIGHT := 1; WAVE_LENGTH := 1; AMPLITUDE := 1;
     RAMP_INIT := 4; PULSE_LENGTH := 1; LASER_NOFOCUS_CONSTANT := -2;
     LASER_PHASE := 0; Polarisation := LINEAR_X |}.

Definition particle_3_4_0 : Particle :=
  {| particle_position := float3_X.create 0;
     particle_momentum := float3_X.mk 3 4 0 |}.

Definition electrons : Species :=
  {| FrameType := {| ValueTypeSeq := [position; momentum; weighting] |} |}.

Definition photons_without_momentum : Species :=
  {| FrameType := {| ValueTypeSeq := [position; weighting] |} |}.

Definition ions : Species :=
  {| FrameType :=
       {| ValueTypeSeq :=
            [weighting; momentum; attribute "boundElectrons"; position;
             momentum] |} |}.

(** ** Vector operations used to state properties of the field *)

(** The product of a scalar and a vector, component by component. *)
Definition vector_scale (k : float_X) (v : float3_X.t) : float3_X.t :=
  float3_X.mk (k * float3_X.x v) (k * float3_X.y v) (k * float3_X.z v).

(** The square of the Euclidean length of a vector. *)
Definition vector_abs2 (v : float3_X.t) : float_X :=
  float3_X.x v * float3_X.x v
  + float3_X.y v * float3_X.y v
  + float3_X.z v * float3_X.z v.

(** The configuration [cfg] with the constant [AMPLITUDE] replaced by [a],
    every other constant unchanged. *)
Definition with_AMPLITUDE (cfg : LaserConfig) (a : R) : LaserConfig :=
  {| DELTA_T := DELTA_T cfg; SPEED_OF_LIGHT := SPEED_OF_LIGHT cfg;
     WAVE_LENGTH := WAVE_LENGTH cfg; AMPLITUDE := a;
     RAMP_INIT := RAMP_INIT cfg; PULSE_LENGTH := PULSE_LENGTH cfg;
     LASER_NOFOCUS_CONSTANT := LASER_NOFOCUS_CONSTANT cfg;
     LASER_PHASE := LASER_PHASE cfg; Polarisation := Polarisation cfg |}.


(** * Properties of the laser profile *)

Import laserPlaneWave.

(** Case analysis on the two comparisons of [envelope_and_correction], in
    the order the code makes them. *)
Ltac regime_cases cfg t :=
  destruct (Rgt_dec t (startDownramp cfg));
  [| destruct (Rlt_dec t (endUpramp cfg))].

(** ** The code's expressions against the spec's *)

Lemma code_exponent_is_spec (cfg : LaserConfig) (u : R) :
  -0.5 * (u / PULSE_LENGTH cfg / sqrt 2) * (u / PULSE_LENGTH cfg / sqrt 2)
  = -0.5 * (u / (PULSE_LENGTH cfg * sqrt 2)) ^ 2.
Proof.
  unfold Rdiv. rewrite Rinv_mult. ring.
Qed.

Lemma code_correction_is_spec (cfg : LaserConfig) (u : R) :
  u / (2 * PULSE_LENGTH cfg * PULSE_LENGTH cfg)
  = u / (2 * PULSE_LENGTH cfg ^ 2).
Proof.
  f_equal. ring.
Qed.

Lemma envelope_and_correction_cases (cfg : LaserConfig) (t : R) :
  envelope_and_correction cfg t =
    if Rgt_dec t (startDownramp cfg) then
      (spec_ramp_envelope cfg (startDownramp cfg) t,
       spec_ramp_correction cfg (startDownramp cfg) t)
    else if Rlt_dec t (endUpramp cfg) then
      (spec_ramp_envelope cfg (endUpramp cfg) t,
       spec_ramp_correction cfg (endUpramp cfg) t)
    else (AMPLITUDE cfg, 0).
Proof.
  unfold envelope_and_correction, spec_ramp_envelope, spec_ramp_correction.
  regime_cases cfg t; cbv zeta;
    rewrite ?code_exponent_is_spec, ?code_correction_is_spec; reflexivity.
Qed.

Lemma t_and_phase_is_spec_theta (cfg : LaserConfig) (t : R) :
  t_and_phase cfg t = spec_theta cfg t.
Proof.
  unfold t_and_phase, spec_theta, timeOszi, w, f. unfold Rdiv. ring.
Qed.

Lemma runTime_cfg_plateau (pol : PolarisationType) (n : N) :
  runTime (cfg_plateau pol) n = IZR (Z.of_N n).
Proof.
  unfold runTime, of_uint32_t. simpl. ring.
Qed.

Lemma endUpramp_cfg_plateau (pol : PolarisationType) :
  endUpramp (cfg_plateau pol) = 2.
Proof.
  unfold endUpramp, mue. simpl. lra.
Qed.

Lemma startDownramp_cfg_plateau (pol : PolarisationType) :
  startDownramp (cfg_plateau pol) = 5.
Proof.
  unfold startDownramp, mue. simpl. lra.
Qed.

(** ** Temporal regimes *)

(** C1 (amended).  For every configuration and every timestep, with
    [t = DELTA_T * currentStep], [endUpramp = 0.5 * RAMP_INIT * PULSE_LENGTH]
    and [startDownramp = endUpramp + LASER_NOFOCUS_CONSTANT], the envelope
    and the integration correction factor are selected by testing the
    downramp first: when [t > startDownramp] they are the spec's ramp
    formulas anchored at [startDownramp]; otherwise, when [t < endUpramp],
    the ramp formulas anchored at [endUpramp]; otherwise the envelope is
    the amplitude and the correction factor is 0. *)
Theorem laserLongitudinal_regimes
  (cfg : LaserConfig) (currentStep : uint32_t) :
  let t := runTime cfg currentStep in
  let eu := endUpramp cfg in
  let sd := startDownramp cfg in
  t = DELTA_T cfg * of_uint32_t currentStep
  /\ eu = 0.5 * RAMP_INIT cfg * PULSE_LENGTH cfg
  /\ sd = eu + LASER_NOFOCUS_CONSTANT cfg
  /\ (t > sd ->
        envelope cfg t = spec_ramp_envelope cfg sd t
        /\ integrationCorrectionFactor cfg t = spec_ramp_correction cfg sd t)
  /\ (~ t > sd -> t < eu ->
        envelope cfg t = spec_ramp_envelope cfg eu t
        /\ integrationCorrectionFactor cfg t = spec_ramp_correction cfg eu t)
  /\ (~ t > sd -> ~ t < eu ->
        envelope cfg t = AMPLITUDE cfg
        /\ integrationCorrectionFactor cfg t = 0).
Proof.
  intros t eu sd. subst eu sd.
  unfold envelope, integrationCorrectionFactor.
  rewrite envelope_and_correction_cases.
  repeat split; try reflexivity; intros;
    regime_cases cfg t; simpl; try reflexivity; tauto.
Qed.

(** At step 1 of [cfg_plateau] the time is 1, before [endUpramp = 2]: the
    upramp formulas apply. *)
Lemma laserLongitudinal_regimes_witness :
  envelope (cfg_plateau LINEAR_X) (runTime (cfg_plateau LINEAR_X) 1)
  = spec_ramp_envelope (cfg_plateau LINEAR_X)
      (endUpramp (cfg_plateau LINEAR_X)) (runTime (cfg_plateau LINEAR_X) 1)
  /\ integrationCorrectionFactor (cfg_plateau LINEAR_X)
       (runTime (cfg_plateau LINEAR_X) 1)
     = spec_ramp_correction (cfg_plateau LINEAR_X)
         (endUpramp (cfg_plateau LINEAR_X))
         (runTime (cfg_plateau LINEAR_X) 1).
Proof.
  apply (laserLongitudinal_regimes (cfg_plateau LINEAR_X) 1).
  - rewrite runTime_cfg_plateau, startDownramp_cfg_plateau. simpl. lra.
  - rewrite runTime_cfg_plateau, endUpramp_cfg_plateau. simpl. lra.
Defined.

(** C1 as stated fails.  With a negative plateau length ([endUpramp = 2],
    [startDownramp = 0]) the time [t = 1] of step 1 satisfies both
    [t < endUpramp] and [t > startDownramp]; the code takes the downramp
    branch, so the correction factor is [1/2] and not the [-1/2] of the
    upramp formula. *)
Lemma regimes_fail_for_negative_plateau :
  ~ regimes_as_independent_cases cfg_negative_plateau 1%N.
Proof.
  unfold regimes_as_independent_cases. cbv zeta.
  intros [Hup _].
  assert (Ht : runTime cfg_negative_plateau 1%N = 1).
  { unfold runTime, of_uint32_t. simpl. lra. }
  assert (He : endUpramp cfg_negative_plateau = 2).
  { unfold endUpramp, mue. simpl. lra. }
  assert (Hs : startDownramp cfg_negative_plateau = 0).
  { unfold startDownramp, mue. simpl. lra. }
  rewrite Ht, He in Hup.
  destruct Hup as [_ Hic]; [lra |].
  unfold integrationCorrectionFactor in Hic.
  rewrite envelope_and_correction_cases, Hs in Hic.
  destruct (Rgt_dec 1 0) as [_ | Hn]; [| lra].
  unfold spec_ramp_correction in Hic. simpl in Hic. lra.
Qed.

(** The value the code computes there. *)
Example correction_factor_negative_plateau :
  integrationCorrectionFactor cfg_negative_plateau
    (runTime cfg_negative_plateau 1) = 1 / 2
  /\ spec_ramp_correction cfg_negative_plateau
       (endUpramp cfg_negative_plateau) (runTime cfg_negative_plateau 1)
     = - (1 / 2).
Proof.
  assert (Ht : runTime cfg_negative_plateau 1%N = 1)
    by (unfold runTime, of_uint32_t; simpl; lra).
  assert (He : endUpramp cfg_negative_plateau = 2)
    by (unfold endUpramp, mue; simpl; lra).
  assert (Hs : startDownramp cfg_negative_plateau = 0)
    by (unfold startDownramp, mue; simpl; lra).
  rewrite Ht, He. split.
  - unfold integrationCorrectionFactor, envelope_and_correction.
    rewrite Hs. destruct (Rgt_dec 1 0); [simpl; lra | lra].
  - unfold spec_ramp_correction. simpl. lra.
Qed.

(** X2.  With a plateau of non-negative length the two ramp conditions
    exclude each other, and the regimes hold as three independent cases. *)
Lemma regimes_for_nonnegative_plateau
  (cfg : LaserConfig) (currentStep : uint32_t) :
  LASER_NOFOCUS_CONSTANT cfg >= 0 ->
  regimes_as_independent_cases cfg currentStep.
Proof.
  intros Hnf. unfold regimes_as_independent_cases. cbv zeta.
  unfold envelope, integrationCorrectionFactor.
  rewrite envelope_and_correction_cases.
  assert (Hle : endUpramp cfg <= startDownramp cfg)
    by (unfold startDownramp, endUpramp; lra).
  repeat split; intros;
    regime_cases cfg (runTime cfg currentStep); simpl;
    try reflexivity; try lra; tauto.
Qed.

Lemma regimes_for_nonnegative_plateau_witness :
  regimes_as_independent_cases (cfg_plateau CIRCULAR) 7.
Proof.
  apply (regimes_for_nonnegative_plateau (cfg_plateau CIRCULAR) 7).
  simpl. lra.
Defined.

(** ** Field assembly *)

(** C2.  For every configuration and timestep, with the carrier phase
    [theta = omega * (t - endUpramp) + phaseOffset],
    [omega = 2 pi c / wavelength], the returned field vector is: in
    [LINEAR_X] mode [x = envelope * (sin theta + cos theta * ic)] and the
    other components 0; in [LINEAR_Z] mode the same value in [z] and the
    other components 0; in [CIRCULAR] mode
    [x = envelope / sqrt 2 * (sin theta + cos theta * ic)] and
    [z = envelope / sqrt 2 * (cos theta - sin theta * ic)]. *)
Theorem laserLongitudinal_polarisation
  (cfg : LaserConfig) (currentStep : uint32_t) (phase : float_X) :
  let t := runTime cfg currentStep in
  let theta := spec_theta cfg t in
  let A := envelope cfg t in
  let ic := integrationCorrectionFactor cfg t in
  let E := fst (laserLongitudinal cfg currentStep phase) in
  (Polarisation cfg = LINEAR_X ->
     E = float3_X.mk (A * (sin theta + cos theta * ic)) 0 0)
  /\ (Polarisation cfg = LINEAR_Z ->
     E = float3_X.mk 0 0 (A * (sin theta + cos theta * ic)))
  /\ (Polarisation cfg = CIRCULAR ->
     E = float3_X.mk (A / sqrt 2 * (sin theta + cos theta * ic))
                     0
                     (A / sqrt 2 * (cos theta - sin theta * ic))).
Proof.
  intros t theta A ic E. subst E theta.
  unfold laserLongitudinal, elong_at. cbv zeta.
  rewrite t_and_phase_is_spec_theta. fold t. fold A. fold ic.
  repeat split; intros ->; reflexivity.
Qed.

Lemma laserLongitudinal_polarisation_witness :
  float3_X.z (fst (laserLongitudinal (cfg_plateau CIRCULAR) 3 0))
  = envelope (cfg_plateau CIRCULAR) (runTime (cfg_plateau CIRCULAR) 3)
    / sqrt 2
    * (cos (spec_theta (cfg_plateau CIRCULAR)
              (runTime (cfg_plateau CIRCULAR) 3))
       - sin (spec_theta (cfg_plateau CIRCULAR)
                (runTime (cfg_plateau CIRCULAR) 3))
         * integrationCorrectionFactor (cfg_plateau CIRCULAR)
             (runTime (cfg_plateau CIRCULAR) 3)).
Proof.
  pose proof (laserLongitudinal_polarisation (cfg_plateau CIRCULAR) 3 0)
    as [_ [_ Hcirc]].
  rewrite (Hcirc eq_refl). reflexivity.
Defined.

(** Step 3 of [cfg_plateau] lies on the plateau, one full carrier period
    after [endUpramp]: the field vanishes there. *)
Example laserLongitudinal_cfg_plateau_step_3 :
  laserLongitudinal (cfg_plateau LINEAR_X) 3 9 = (float3_X.mk 0 0 0, 0).
Proof.
  unfold laserLongitudinal, elong_at. cbv zeta. simpl Polarisation.
  unfold envelope, integrationCorrectionFactor, envelope_and_correction.
  rewrite t_and_phase_is_spec_theta. unfold spec_theta.
  rewrite runTime_cfg_plateau, endUpramp_cfg_plateau,
    startDownramp_cfg_plateau.
  change (IZR (Z.of_N 3)) with 3.
  destruct (Rgt_dec 3 5); [lra |].
  destruct (Rlt_dec 3 2); [lra |].
  simpl. unfold to_float_X, float3_X.set_x, float3_X.create. simpl.
  replace (2 * PI * 1 / 1 * (3 - 2) + 0) with (2 * PI) by lra.
  rewrite sin_2PI, cos_2PI.
  repeat f_equal; lra.
Qed.

(** C6.  For every configuration, timestep and incoming value of the
    phase parameter, the phase that [laserLongitudinal] leaves in its output
    parameter is 0. *)
Theorem laserLongitudinal_phase_reset
  (cfg : LaserConfig) (currentStep : uint32_t) (phase : float_X) :
  snd (laserLongitudinal cfg currentStep phase) = 0.
Proof. reflexivity. Qed.

(** C7.  [laserTransversal] returns its field vector unchanged, whatever
    the three coordinates. *)
Theorem laserTransversal_identity
  (elong : float3_X.t) (posX posY posZ : float_X) :
  laserTransversal elong posX posY posZ = elong.
Proof. reflexivity. Qed.

Lemma elong_at_y (cfg : LaserConfig) (t : R) :
  float3_X.y (elong_at cfg t) = 0.
Proof.
  unfold elong_at. destruct (Polarisation cfg); reflexivity.
Qed.

(** C10.  For every configuration, timestep and polarisation value the
    y-component of the vector returned by [laserLongitudinal] is 0; and when
    the polarisation value is none of [LINEAR_X], [LINEAR_Z], [CIRCULAR],
    the whole vector is [(0, 0, 0)]. *)
Theorem laserLongitudinal_y_zero
  (cfg : LaserConfig) (currentStep : uint32_t) (phase : float_X) :
  float3_X.y (fst (laserLongitudinal cfg currentStep phase)) = 0
  /\ (Polarisation cfg <> LINEAR_X ->
      Polarisation cfg <> LINEAR_Z ->
      Polarisation cfg <> CIRCULAR ->
      fst (laserLongitudinal cfg currentStep phase) = float3_X.mk 0 0 0).
Proof.
  split.
  - apply elong_at_y.
  - intros Hx Hz Hc. unfold laserLongitudinal, elong_at. cbv zeta. simpl fst.
    destruct (Polarisation cfg); try contradiction; reflexivity.
Qed.

Lemma laserLongitudinal_y_zero_witness :
  fst (laserLongitudinal (cfg_plateau NO_ENUMERATOR) 1 0)
  = float3_X.mk 0 0 0.
Proof.
  apply (laserLongitudinal_y_zero (cfg_plateau NO_ENUMERATOR) 1 0);
    simpl; discriminate.
Defined.

(** X1.  In [CIRCULAR] mode the two assigned components satisfy
    [x^2 + z^2 = envelope^2 / 2 * (1 + ic^2)]. *)
Lemma laserLongitudinal_circular_norm
  (cfg : LaserConfig) (currentStep : uint32_t) (phase : float_X) :
  Polarisation cfg = CIRCULAR ->
  let t := runTime cfg currentStep in
  let E := fst (laserLongitudinal cfg currentStep phase) in
  float3_X.x E ^ 2 + float3_X.z E ^ 2
  = envelope cfg t ^ 2 / 2 * (1 + integrationCorrectionFactor cfg t ^ 2).
Proof.
  intros Hpol t E. subst E.
  unfold laserLongitudinal, elong_at. cbv zeta. simpl fst. rewrite Hpol.
  simpl float3_X.x. simpl float3_X.z. unfold to_float_X. fold t.
  set (tp := t_and_phase cfg t).
  set (A := envelope cfg t).
  set (ic := integrationCorrectionFactor cfg t).
  pose proof (sin2_cos2 tp) as Hsc. unfold Rsqr in Hsc.
  assert (Hs2 : / sqrt 2 * / sqrt 2 = / 2).
  { rewrite <- Rinv_mult, sqrt_sqrt by lra. reflexivity. }
  unfold Rdiv.
  replace ((A * / sqrt 2 * (sin tp + cos tp * ic)) ^ 2
           + (A * / sqrt 2 * (cos tp - sin tp * ic)) ^ 2)
    with (A ^ 2 * (/ sqrt 2 * / sqrt 2)
          * ((sin tp * sin tp + cos tp * cos tp) * (1 + ic ^ 2))) by ring.
  rewrite Hs2, Hsc. ring.
Qed.

Lemma laserLongitudinal_circular_norm_witness :
  float3_X.x (fst (laserLongitudinal (cfg_plateau CIRCULAR) 1 0)) ^ 2
  + float3_X.z (fst (laserLongitudinal (cfg_plateau CIRCULAR) 1 0)) ^ 2
  = envelope (cfg_plateau CIRCULAR) (runTime (cfg_plateau CIRCULAR) 1) ^ 2
    / 2
    * (1 + integrationCorrectionFactor (cfg_plateau CIRCULAR)
             (runTime (cfg_plateau CIRCULAR) 1) ^ 2).
Proof.
  apply (laserLongitudinal_circular_norm (cfg_plateau CIRCULAR) 1 0).
  reflexivity.
Defined.

(** ** The plateau boundaries *)

Lemma gaussian_at_0 (cfg : LaserConfig) : gaussian cfg 0 = AMPLITUDE cfg.
Proof.
  unfold gaussian.
  replace (-0.5 * (0 / PULSE_LENGTH cfg / sqrt 2)
                * (0 / PULSE_LENGTH cfg / sqrt 2)) with 0
    by (unfold Rdiv; ring).
  rewrite exp_0. ring.
Qed.

Lemma gaussian_continuous (cfg : LaserConfig) (u : R) :
  continuity_pt (gaussian cfg) u.
Proof.
  apply derivable_continuous_pt. unfold gaussian. reg.
Qed.

(** The envelope is the Gaussian of the distance to the plateau, in all
    three branches. *)
Lemma envelope_is_gaussian_of_offset (cfg : LaserConfig) (t : R) :
  envelope cfg t = gaussian cfg (plateau_offset cfg t).
Proof.
  unfold envelope, envelope_and_correction, plateau_offset.
  regime_cases cfg t; try reflexivity.
  simpl. symmetry. apply gaussian_at_0.
Qed.

Lemma spec_ramp_envelope_is_gaussian (cfg : LaserConfig) (c t : R) :
  spec_ramp_envelope cfg c t = gaussian cfg (t - c).
Proof.
  unfold spec_ramp_envelope, gaussian. now rewrite code_exponent_is_spec.
Qed.

Lemma startDownramp_after_endUpramp (cfg : LaserConfig) :
  LASER_NOFOCUS_CONSTANT cfg >= 0 -> endUpramp cfg <= startDownramp cfg.
Proof. unfold startDownramp, endUpramp. lra. Qed.

(** Near a boundary of the plateau the distance to the plateau is at most
    the distance to that boundary. *)
Lemma plateau_offset_near (cfg : LaserConfig) (p t : R) :
  LASER_NOFOCUS_CONSTANT cfg >= 0 ->
  p = endUpramp cfg \/ p = startDownramp cfg ->
  Rabs (plateau_offset cfg t) <= Rabs (t - p).
Proof.
  intros Hnf Hp. pose proof (startDownramp_after_endUpramp cfg Hnf) as Hle.
  unfold plateau_offset.
  regime_cases cfg t; destruct Hp as [-> | ->];
    unfold Rabs; repeat destruct Rcase_abs; lra.
Qed.

(** A function that is the Gaussian of an offset bounded by the distance
    to [p] tends to the amplitude at [p], from any side. *)
Lemma gaussian_of_offset_limit
  (cfg : LaserConfig) (offset : R -> R) (p : R) (D : R -> Prop) :
  (forall t, Rabs (offset t) <= Rabs (t - p)) ->
  limit1_in (fun t => gaussian cfg (offset t)) D (AMPLITUDE cfg) p.
Proof.
  intros Hoff eps Heps.
  destruct (gaussian_continuous cfg 0 eps Heps) as [alp [Halp Hg]].
  exists alp. split; [exact Halp |].
  intros t [_ Hdist]. rewrite <- gaussian_at_0.
  destruct (Req_dec (offset t) 0) as [Hz | Hnz].
  - rewrite Hz. simpl. unfold R_dist. rewrite Rminus_diag, Rabs_R0.
    exact Heps.
  - apply Hg. split.
    + split; [exact I | intros E; apply Hnz; now rewrite <- E].
    + simpl in *. unfold R_dist in *. rewrite Rminus_0_r.
      eapply Rle_lt_trans; [apply Hoff | exact Hdist].
Qed.

Lemma limit1_in_ext (g h : R -> R) (D : R -> Prop) (l p : R) :
  (forall t, g t = h t) -> limit1_in h D l p -> limit1_in g D l p.
Proof.
  intros Hext Hlim eps Heps.
  destruct (Hlim eps Heps) as [alp [Halp Hh]].
  exists alp. split; [exact Halp |].
  intros t Ht. rewrite Hext. now apply Hh.
Qed.

Lemma envelope_limit_at_boundary
  (cfg : LaserConfig) (p : R) (D : R -> Prop) :
  LASER_NOFOCUS_CONSTANT cfg >= 0 ->
  p = endUpramp cfg \/ p = startDownramp cfg ->
  limit1_in (envelope cfg) D (AMPLITUDE cfg) p.
Proof.
  intros Hnf Hp.
  apply limit1_in_ext with (h := fun t => gaussian cfg (plateau_offset cfg t)).
  - apply envelope_is_gaussian_of_offset.
  - apply gaussian_of_offset_limit. intros t. now apply plateau_offset_near.
Qed.

Lemma spec_ramp_envelope_limit (cfg : LaserConfig) (c : R) (D : R -> Prop) :
  limit1_in (spec_ramp_envelope cfg c) D (AMPLITUDE cfg) c.
Proof.
  apply limit1_in_ext with (h := fun t => gaussian cfg (t - c)).
  - apply spec_ramp_envelope_is_gaussian.
  - apply gaussian_of_offset_limit. intros t. apply Rle_refl.
Qed.

Lemma boundary_is_plateau (cfg : LaserConfig) (p : R) :
  LASER_NOFOCUS_CONSTANT cfg >= 0 ->
  p = endUpramp cfg \/ p = startDownramp cfg ->
  ~ p > startDownramp cfg /\ ~ p < endUpramp cfg.
Proof.
  intros Hnf Hp. pose proof (startDownramp_after_endUpramp cfg Hnf) as Hle.
  destruct Hp; lra.
Qed.

(** C3.  For every configuration with [LASER_NOFOCUS_CONSTANT >= 0] and for
    [p] either of [endUpramp] and [startDownramp]: at a time equal to [p]
    neither ramp condition holds (the plateau branch applies, the boundary
    is inclusive), so the envelope is the amplitude and the integration
    correction factor is 0, in particular at a timestep whose time is [p];
    the envelope tends to the amplitude at [p] from the left and from the
    right, and so does the ramp formula anchored at [p]. *)
Theorem plateau_boundaries (cfg : LaserConfig) (p : R) :
  LASER_NOFOCUS_CONSTANT cfg >= 0 ->
  p = endUpramp cfg \/ p = startDownramp cfg ->
  (~ p > startDownramp cfg /\ ~ p < endUpramp cfg)
  /\ envelope cfg p = AMPLITUDE cfg
  /\ integrationCorrectionFactor cfg p = 0
  /\ (forall currentStep : uint32_t,
        runTime cfg currentStep = p ->
        envelope cfg (runTime cfg currentStep) = AMPLITUDE cfg
        /\ integrationCorrectionFactor cfg (runTime cfg currentStep) = 0)
  /\ limit1_in (envelope cfg) (fun t => t < p) (AMPLITUDE cfg) p
  /\ limit1_in (envelope cfg) (fun t => t > p) (AMPLITUDE cfg) p
  /\ limit1_in (spec_ramp_envelope cfg p) (fun t => t < p) (AMPLITUDE cfg) p
  /\ limit1_in (spec_ramp_envelope cfg p) (fun t => t > p) (AMPLITUDE cfg) p.
Proof.
  intros Hnf Hp.
  destruct (boundary_is_plateau cfg p Hnf Hp) as [Hd Hu].
  assert (Hval : envelope_and_correction cfg p = (AMPLITUDE cfg, 0)).
  { unfold envelope_and_correction.
    regime_cases cfg p; try contradiction; reflexivity. }
  assert (Henv : envelope cfg p = AMPLITUDE cfg)
    by (unfold envelope; now rewrite Hval).
  assert (Hic : integrationCorrectionFactor cfg p = 0)
    by (unfold integrationCorrectionFactor; now rewrite Hval).
  split; [exact (conj Hd Hu) |].
  split; [exact Henv |].
  split; [exact Hic |].
  split; [intros currentStep ->; exact (conj Henv Hic) |].
  split; [now apply envelope_limit_at_boundary |].
  split; [now apply envelope_limit_at_boundary |].
  split; apply spec_ramp_envelope_limit.
Qed.

(** [cfg_plateau] at its [endUpramp = 2], which is the time of step 2. *)
Lemma plateau_boundaries_witness :
  envelope (cfg_plateau LINEAR_X) (runTime (cfg_plateau LINEAR_X) 2)
  = AMPLITUDE (cfg_plateau LINEAR_X)
  /\ integrationCorrectionFactor (cfg_plateau LINEAR_X)
       (runTime (cfg_plateau LINEAR_X) 2) = 0.
Proof.
  apply (plateau_boundaries (cfg_plateau LINEAR_X)
           (endUpramp (cfg_plateau LINEAR_X))).
  - simpl. lra.
  - left. reflexivity.
  - rewrite runTime_cfg_plateau, endUpramp_cfg_plateau. reflexivity.
Defined.

(** * Properties of the momentum-component attribute *)

(** ** Unit dimension and static assertions *)

(** C8.  For every instance of the attribute, whatever its axis,
    [getUnitDimension] returns a vector of exactly 7 entries, all 0. *)
Theorem getUnitDimension_zero (self : MomentumComponent.t) :
  MomentumComponent.getUnitDimension self = [0; 0; 0; 0; 0; 0; 0]
  /\ List.length (MomentumComponent.getUnitDimension self) = 7%nat
  /\ Forall (fun e => e = 0) (MomentumComponent.getUnitDimension self).
Proof.
  unfold MomentumComponent.getUnitDimension. simpl.
  repeat split. repeat constructor.
Qed.

(** C9.  Instantiating the attribute with an axis below 3 passes both
    static assertions and yields the instance; with an axis of 3 or more
    the build stops at a static assertion that carries the message
    [Valid_directions_are_0_to_2_for_X_to_Z__in_fileOutput_param].  The axis
    is checked nowhere else: [getUnitDimension] returns its vector for an
    instance of any axis. *)
Theorem MomentumComponent_static_assertions (T_direction : size_t) :
  ((T_direction < 3)%N ->
     MomentumComponent.assertion_ge_0 T_direction = true
     /\ MomentumComponent.assertion_lt_3 T_direction = true
     /\ MomentumComponent.instantiate T_direction
        = Instantiated (MomentumComponent.mk T_direction))
  /\ ((3 <= T_direction)%N ->
     MomentumComponent.instantiate T_direction
     = StaticAssertionFailed
         "Valid_directions_are_0_to_2_for_X_to_Z__in_fileOutput_param")
  /\ MomentumComponent.getUnitDimension (MomentumComponent.mk T_direction)
     = repeat 0 7.
Proof.
  unfold MomentumComponent.instantiate, MomentumComponent.assertion_ge_0,
    MomentumComponent.assertion_lt_3, PMACC_CASSERT_MSG.
  assert (H0 : (0 <=? T_direction)%N = true) by (apply N.leb_le; lia).
  rewrite H0.
  split; [| split].
  - intros Hlt. apply N.ltb_lt in Hlt. rewrite Hlt. auto.
  - intros Hge. apply N.ltb_ge in Hge. rewrite Hge. reflexivity.
  - reflexivity.
Qed.

Lemma MomentumComponent_static_assertions_witness :
  MomentumComponent.instantiate 2 = Instantiated (MomentumComponent.mk 2)
  /\ MomentumComponent.instantiate 3
     = StaticAssertionFailed
         "Valid_directions_are_0_to_2_for_X_to_Z__in_fileOutput_param".
Proof.
  split.
  - apply (MomentumComponent_static_assertions 2). reflexivity.
  - apply (MomentumComponent_static_assertions 3). discriminate.
Defined.

(** ** The ratio *)

Lemma component_le_vector_abs (p : float3_X.t) (d : size_t) :
  Rabs (float3_X.get p d) <= vector_abs p.
Proof.
  destruct p as [px py pz]. unfold vector_abs.
  simpl float3_X.x. simpl float3_X.y. simpl float3_X.z.
  assert (Hsq : forall c, 0 <= c * c) by (intros c; nra).
  assert (Hc : forall c, c * c <= px * px + py * py + pz * pz ->
                         Rabs c <= sqrt (px * px + py * py + pz * pz)).
  { intros c Hle. rewrite <- sqrt_Rsqr_abs. apply sqrt_le_1_alt. exact Hle. }
  pose proof (Hsq px). pose proof (Hsq py). pose proof (Hsq pz).
  unfold float3_X.get.
  destruct d as [| [[| q |] | [| q |] |]]; simpl;
    try (apply Hc; lra);
    rewrite Rabs_R0; apply sqrt_pos.
Qed.

Lemma vector_abs_zero : vector_abs (float3_X.mk 0 0 0) = 0.
Proof.
  unfold vector_abs. simpl.
  replace (0 * 0 + 0 * 0 + 0 * 0) with 0 by ring. apply sqrt_0.
Qed.

Lemma ratio_in_unit_interval (c a : R) :
  a > 0 -> Rabs c <= a -> -1 <= c / a <= 1.
Proof.
  intros Ha Hc.
  assert (Hb : - a <= c <= a)
    by (revert Hc; unfold Rabs; destruct Rcase_abs; lra).
  split; apply Rmult_le_reg_r with a; try lra;
    unfold Rdiv; rewrite Rmult_assoc, Rinv_l by lra; lra.
Qed.

(** C4.  For every particle and every axis [d] in {0, 1, 2}, with [p] the
    momentum of the particle, the attribute returns [p[d] / |p|] when
    [|p| > 0] and 0 when [p] is the zero vector; the result lies in
    [[-1, 1]]. *)
Theorem MomentumComponent_call_ratio
  (self : MomentumComponent.t) (particle : Particle) :
  (MomentumComponent.T_direction self < 3)%N ->
  let p := particle_momentum particle in
  let d := MomentumComponent.T_direction self in
  let r := MomentumComponent.call self particle in
  (vector_abs p > 0 -> r = float3_X.get p d / vector_abs p)
  /\ (p = float3_X.mk 0 0 0 -> r = 0)
  /\ -1 <= r <= 1.
Proof.
  intros _ p d r. subst r. unfold MomentumComponent.call. fold p. fold d.
  split; [| split].
  - intros Hpos.
    destruct (Rgt_dec (vector_abs p) 0); [reflexivity | contradiction].
  - intros ->. rewrite vector_abs_zero.
    destruct (Rgt_dec 0 0); [lra | reflexivity].
  - destruct (Rgt_dec (vector_abs p) 0) as [Hpos | _]; [| lra].
    apply ratio_in_unit_interval; [exact Hpos |].
    apply component_le_vector_abs.
Qed.

Lemma MomentumComponent_call_ratio_witness :
  -1 <= MomentumComponent.call (MomentumComponent.mk 1) particle_3_4_0 <= 1.
Proof.
  apply (MomentumComponent_call_ratio (MomentumComponent.mk 1) particle_3_4_0).
  reflexivity.
Defined.

(** The momentum (3, 4, 0) has length 5: its y-ratio is 4/5. *)
Example call_particle_3_4_0 :
  MomentumComponent.call (MomentumComponent.mk 1) particle_3_4_0 = 4 / 5.
Proof.
  assert (Habs : vector_abs (particle_momentum particle_3_4_0) = 5).
  { unfold vector_abs. simpl.
    replace (3 * 3 + 4 * 4 + 0 * 0) with (5 * 5) by ring.
    apply sqrt_square. lra. }
  unfold MomentumComponent.call. cbv zeta. rewrite Habs.
  destruct (Rgt_dec 5 0); [reflexivity | lra].
Qed.

(** ** Eligibility *)

Lemma identifier_eqb_eq (a b : identifier) :
  identifier_eqb a b = true <-> a = b.
Proof.
  destruct a, b; simpl; split; try congruence; try reflexivity.
  - intros H. apply String.eqb_eq in H. now subst.
  - intros H. injection H as ->. apply String.eqb_refl.
Qed.

Lemma existsb_identifier_In (r : identifier) (l : list identifier) :
  existsb (identifier_eqb r) l = true <-> In r l.
Proof.
  rewrite existsb_exists. split.
  - intros [i [Hin Heq]]. apply identifier_eqb_eq in Heq. now subst.
  - intros Hin. exists r. split; [exact Hin | now apply identifier_eqb_eq].
Qed.

Lemma eligible_MomentumComponent_unfold
  (T_Species : Species) (solver : MomentumComponent.t) :
  eligible T_Species solver
  = existsb (identifier_eqb position) (ValueTypeSeq (FrameType T_Species))
    && existsb (identifier_eqb momentum) (ValueTypeSeq (FrameType T_Species)).
Proof.
  unfold eligible, SpeciesEligibleForSolver_MomentumComponent, HasIdentifiers,
    RequiredIdentifiers.
  simpl. now rewrite andb_true_r.
Qed.

(** C5.  For every species and every instance of the attribute (any
    axis), the species is eligible if and only if its frame declares both
    [position] and [momentum]; it is not eligible if and only if one of
    the two is missing. *)
Theorem MomentumComponent_eligibility
  (T_Species : Species) (solver : MomentumComponent.t) :
  (eligible T_Species solver = true
   <-> In position (ValueTypeSeq (FrameType T_Species))
       /\ In momentum (ValueTypeSeq (FrameType T_Species)))
  /\ (eligible T_Species solver = false
   <-> ~ In position (ValueTypeSeq (FrameType T_Species))
       \/ ~ In momentum (ValueTypeSeq (FrameType T_Species))).
Proof.
  rewrite eligible_MomentumComponent_unfold.
  rewrite andb_true_iff, andb_false_iff.
  rewrite <- !existsb_identifier_In.
  split; [reflexivity |].
  destruct (existsb (identifier_eqb position) _),
           (existsb (identifier_eqb momentum) _);
    intuition congruence.
Qed.

Example electrons_eligible :
  eligible electrons (MomentumComponent.mk 0) = true.
Proof. reflexivity. Qed.

Example photons_without_momentum_not_eligible :
  eligible photons_without_momentum (MomentumComponent.mk 2) = false.
Proof. reflexivity. Qed.


(** * The shape of the pulse *)

(** ** The Gaussian and the distance to the plateau *)

Lemma integrationCorrectionFactor_of_offset (cfg : LaserConfig) (t : R) :
  integrationCorrectionFactor cfg t
  = plateau_offset cfg t / (2 * PULSE_LENGTH cfg * PULSE_LENGTH cfg).
Proof.
  unfold integrationCorrectionFactor, envelope_and_correction, plateau_offset.
  regime_cases cfg t; simpl; try reflexivity.
  unfold Rdiv. ring.
Qed.

Lemma on_plateau_values (cfg : LaserConfig) (t : R) :
  ~ t > startDownramp cfg -> ~ t < endUpramp cfg ->
  envelope cfg t = AMPLITUDE cfg /\ integrationCorrectionFactor cfg t = 0.
Proof.
  intros Hd Hu.
  unfold envelope, integrationCorrectionFactor, envelope_and_correction.
  regime_cases cfg t; try contradiction. split; reflexivity.
Qed.

Lemma exp_le_compat (a b : R) : a <= b -> exp a <= exp b.
Proof.
  intros [Hlt | ->]; [left; now apply exp_increasing | apply Rle_refl].
Qed.

(** The exponent of the Gaussian is a non-positive multiple of [u * u]. *)
Lemma gaussian_exponent (cfg : LaserConfig) (u : R) :
  -0.5 * (u / PULSE_LENGTH cfg / sqrt 2) * (u / PULSE_LENGTH cfg / sqrt 2)
  = -0.5 * ((/ PULSE_LENGTH cfg * / sqrt 2) * (/ PULSE_LENGTH cfg * / sqrt 2))
    * (u * u).
Proof. unfold Rdiv. ring. Qed.

Lemma gaussian_factor_nonpos (cfg : LaserConfig) :
  -0.5 * ((/ PULSE_LENGTH cfg * / sqrt 2) * (/ PULSE_LENGTH cfg * / sqrt 2))
  <= 0.
Proof.
  set (k := / PULSE_LENGTH cfg * / sqrt 2).
  assert (0 <= k * k) by nra. lra.
Qed.


Lemma sqr_le_of_Rabs_le (u v : R) : Rabs v <= Rabs u -> v * v <= u * u.
Proof.
  intros H.
  pose proof (Rabs_pos v). pose proof (Rabs_pos u).
  replace (v * v) with (Rabs v * Rabs v)
    by (unfold Rabs; destruct Rcase_abs; ring).
  replace (u * u) with (Rabs u * Rabs u)
    by (unfold Rabs; destruct Rcase_abs; ring).
  nra.
Qed.

(** For a non-negative amplitude the Gaussian decreases with the distance. *)
Lemma gaussian_antitone (cfg : LaserConfig) (u v : R) :
  0 <= AMPLITUDE cfg -> Rabs v <= Rabs u -> gaussian cfg u <= gaussian cfg v.
Proof.
  intros HA Huv. unfold gaussian.
  apply Rmult_le_compat_l; [exact HA |].
  apply exp_le_compat. rewrite !gaussian_exponent.
  pose proof (gaussian_factor_nonpos cfg).
  pose proof (sqr_le_of_Rabs_le u v Huv). nra.
Qed.

Lemma gaussian_even (cfg : LaserConfig) (u : R) :
  gaussian cfg (- u) = gaussian cfg u.
Proof.
  unfold gaussian. rewrite !gaussian_exponent. do 2 f_equal. ring.
Qed.

Lemma gaussian_below_amplitude (cfg : LaserConfig) (u : R) :
  AMPLITUDE cfg <> 0 -> PULSE_LENGTH cfg <> 0 -> u <> 0 ->
  gaussian cfg u <> AMPLITUDE cfg.
Proof.
  intros HA HP Hu Heq. unfold gaussian in Heq.
  rewrite gaussian_exponent in Heq.
  set (k := / PULSE_LENGTH cfg * / sqrt 2) in *.
  assert (Hk : k <> 0).
  { unfold k. apply Rmult_integral_contrapositive. split.
    - now apply Rinv_neq_0_compat.
    - apply Rinv_neq_0_compat. pose proof (sqrt_lt_R0 2). lra. }
  assert (Hkk : 0 < k * k) by nra.
  assert (Huu : 0 < u * u) by nra.
  assert (Hx : -0.5 * (k * k) * (u * u) < 0) by nra.
  apply exp_increasing in Hx. rewrite exp_0 in Hx.
  set (g := exp _) in *. nra.
Qed.

Lemma plateau_offset_lipschitz (cfg : LaserConfig) (s t : R) :
  LASER_NOFOCUS_CONSTANT cfg >= 0 ->
  Rabs (plateau_offset cfg t - plateau_offset cfg s) <= Rabs (t - s).
Proof.
  intros Hnf. pose proof (startDownramp_after_endUpramp cfg Hnf) as Hle.
  unfold plateau_offset.
  regime_cases cfg t; regime_cases cfg s;
    unfold Rabs; repeat destruct Rcase_abs; lra.
Qed.

Lemma plateau_offset_continuous (cfg : LaserConfig) (t : R) :
  LASER_NOFOCUS_CONSTANT cfg >= 0 ->
  continuity_pt (plateau_offset cfg) t.
Proof.
  intros Hnf eps Heps. exists eps. split; [exact Heps |].
  intros s [_ Hdist]. simpl in *. unfold R_dist in *.
  eapply Rle_lt_trans;
    [apply plateau_offset_lipschitz; exact Hnf | exact Hdist].
Qed.

Lemma plateau_offset_monotone (cfg : LaserConfig) (s t : R) :
  LASER_NOFOCUS_CONSTANT cfg >= 0 -> s <= t ->
  plateau_offset cfg s <= plateau_offset cfg t.
Proof.
  intros Hnf Hst. pose proof (startDownramp_after_endUpramp cfg Hnf) as Hle.
  unfold plateau_offset. regime_cases cfg s; regime_cases cfg t; lra.
Qed.

Lemma plateau_offset_sign (cfg : LaserConfig) (t : R) :
  LASER_NOFOCUS_CONSTANT cfg >= 0 ->
  (t <= startDownramp cfg -> plateau_offset cfg t <= 0)
  /\ (endUpramp cfg <= t -> 0 <= plateau_offset cfg t).
Proof.
  intros Hnf. pose proof (startDownramp_after_endUpramp cfg Hnf) as Hle.
  unfold plateau_offset. regime_cases cfg t; split; intros; lra.
Qed.

Lemma continuity_pt_ext (g h : R -> R) (t : R) :
  (forall s, g s = h s) -> continuity_pt h t -> continuity_pt g t.
Proof.
  intros Hext Hc eps Heps. destruct (Hc eps Heps) as [alp [Halp Hh]].
  exists alp. split; [exact Halp |].
  intros s Hs. rewrite !Hext. now apply Hh.
Qed.

(** ** Bounds, symmetry and monotonicity of the envelope *)



(** X4.  With a plateau of non-negative length the pulse is mirrored about
    the plateau: a time [d >= 0] before [endUpramp] and the time [d] after
    [startDownramp] have the same envelope and opposite integration
    correction factors. *)
Theorem envelope_mirrored (cfg : LaserConfig) (d : R) :
  LASER_NOFOCUS_CONSTANT cfg >= 0 ->
  0 <= d ->
  envelope cfg (endUpramp cfg - d) = envelope cfg (startDownramp cfg + d)
  /\ integrationCorrectionFactor cfg (endUpramp cfg - d)
     = - integrationCorrectionFactor cfg (startDownramp cfg + d).
Proof.
  intros Hnf Hd. pose proof (startDownramp_after_endUpramp cfg Hnf) as Hle.
  rewrite !envelope_is_gaussian_of_offset,
    !integrationCorrectionFactor_of_offset.
  assert (Hoff : plateau_offset cfg (endUpramp cfg - d)
                 = - plateau_offset cfg (startDownramp cfg + d)).
  { unfold plateau_offset.
    regime_cases cfg (endUpramp cfg - d);
      regime_cases cfg (startDownramp cfg + d); lra. }
  rewrite Hoff, gaussian_even. split; [reflexivity |].
  unfold Rdiv. ring.
Qed.

Lemma envelope_mirrored_witness :
  envelope (cfg_plateau CIRCULAR) (endUpramp (cfg_plateau CIRCULAR) - 1)
  = envelope (cfg_plateau CIRCULAR) (startDownramp (cfg_plateau CIRCULAR) + 1)
  /\ integrationCorrectionFactor (cfg_plateau CIRCULAR)
       (endUpramp (cfg_plateau CIRCULAR) - 1)
     = - integrationCorrectionFactor (cfg_plateau CIRCULAR)
           (startDownramp (cfg_plateau CIRCULAR) + 1).
Proof.
  apply (envelope_mirrored (cfg_plateau CIRCULAR) 1).
  - simpl. lra.
  - lra.
Defined.

(** X5.  With a non-negative amplitude and a plateau of non-negative
    length the envelope has a single maximum: between two times
    [t1 <= t2] it does not decrease while [t2] is not after
    [startDownramp], and it does not increase once [t1] is not before
    [endUpramp]. *)
Theorem envelope_unimodal (cfg : LaserConfig) (t1 t2 : R) :
  0 <= AMPLITUDE cfg ->
  LASER_NOFOCUS_CONSTANT cfg >= 0 ->
  t1 <= t2 ->
  (t2 <= startDownramp cfg -> envelope cfg t1 <= envelope cfg t2)
  /\ (endUpramp cfg <= t1 -> envelope cfg t2 <= envelope cfg t1).
Proof.
  intros HA Hnf H12.
  rewrite !envelope_is_gaussian_of_offset.
  pose proof (plateau_offset_monotone cfg t1 t2 Hnf H12) as Hmono.
  split; intros Hside; apply gaussian_antitone; try exact HA.
  - destruct (plateau_offset_sign cfg t2 Hnf) as [H2 _]. specialize (H2 Hside).
    rewrite !Rabs_left1; lra.
  - destruct (plateau_offset_sign cfg t1 Hnf) as [_ H1]. specialize (H1 Hside).
    rewrite !Rabs_pos_eq; lra.
Qed.

Lemma envelope_unimodal_witness :
  envelope (cfg_plateau LINEAR_Z) 0 <= envelope (cfg_plateau LINEAR_Z) 1
  /\ envelope (cfg_plateau LINEAR_Z) 7 <= envelope (cfg_plateau LINEAR_Z) 6.
Proof.
  split.
  - apply (proj1 (envelope_unimodal (cfg_plateau LINEAR_Z) 0 1
                    ltac:(simpl; lra) ltac:(simpl; lra) ltac:(lra))).
    rewrite startDownramp_cfg_plateau. lra.
  - apply (proj2 (envelope_unimodal (cfg_plateau LINEAR_Z) 6 7
                    ltac:(simpl; lra) ltac:(simpl; lra) ltac:(lra))).
    rewrite endUpramp_cfg_plateau. lra.
Defined.

(** ** Continuity *)

(** X6.  With a plateau of non-negative length the envelope and the
    integration correction factor are continuous functions of the time, at
    every time. *)
Theorem envelope_continuous (cfg : LaserConfig) (t : R) :
  LASER_NOFOCUS_CONSTANT cfg >= 0 ->
  continuity_pt (envelope cfg) t
  /\ continuity_pt (integrationCorrectionFactor cfg) t.
Proof.
  intros Hnf. split.
  - apply continuity_pt_ext
      with (h := comp (gaussian cfg) (plateau_offset cfg)).
    + intros s. apply envelope_is_gaussian_of_offset.
    + apply continuity_pt_comp.
      * now apply plateau_offset_continuous.
      * apply gaussian_continuous.
  - apply continuity_pt_ext
      with (h := (plateau_offset cfg
                  * fct_cte (/ (2 * PULSE_LENGTH cfg * PULSE_LENGTH cfg)))%F).
    + intros s. apply integrationCorrectionFactor_of_offset.
    + apply continuity_pt_mult.
      * now apply plateau_offset_continuous.
      * apply continuity_pt_const. intros a b. reflexivity.
Qed.

Lemma envelope_continuous_witness :
  continuity_pt (envelope (cfg_plateau LINEAR_X)) 5
  /\ continuity_pt (integrationCorrectionFactor (cfg_plateau LINEAR_X)) 5.
Proof.
  apply (envelope_continuous (cfg_plateau LINEAR_X) 5). simpl. lra.
Defined.

(** X7.  With a plateau of negative length, a non-zero amplitude and a
    non-zero pulse length, the envelope is not continuous at
    [startDownramp]: at that time the upramp branch applies, just after it
    the downramp branch, whose value there tends to the amplitude. *)
Theorem envelope_jump_for_negative_plateau (cfg : LaserConfig) :
  AMPLITUDE cfg <> 0 ->
  PULSE_LENGTH cfg <> 0 ->
  LASER_NOFOCUS_CONSTANT cfg < 0 ->
  ~ continuity_pt (envelope cfg) (startDownramp cfg).
Proof.
  intros HA HP Hnf Hc.
  assert (Hval : envelope cfg (startDownramp cfg)
                 = gaussian cfg (LASER_NOFOCUS_CONSTANT cfg)).
  { rewrite envelope_is_gaussian_of_offset. f_equal.
    unfold plateau_offset.
    regime_cases cfg (startDownramp cfg);
      unfold startDownramp, endUpramp in *; lra. }
  assert (Hne : gaussian cfg (LASER_NOFOCUS_CONSTANT cfg) <> AMPLITUDE cfg)
    by (apply gaussian_below_amplitude; auto; lra).
  set (gap := Rabs (AMPLITUDE cfg - gaussian cfg (LASER_NOFOCUS_CONSTANT cfg))).
  assert (Hgap : 0 < gap).
  { unfold gap. apply Rabs_pos_lt. lra. }
  destruct (Hc (gap / 2)) as [a1 [Ha1 H1]]; [lra |].
  destruct (gaussian_continuous cfg 0 (gap / 2)) as [a2 [Ha2 H2]]; [lra |].
  set (u := Rmin a1 a2 / 2).
  assert (Hu : 0 < u /\ u < a1 /\ u < a2).
  { unfold u. pose proof (Rmin_l a1 a2). pose proof (Rmin_r a1 a2).
    assert (0 < Rmin a1 a2) by (apply Rmin_glb_lt; lra). lra. }
  destruct Hu as [Hu0 [Hu1 Hu2]].
  assert (Henv : envelope cfg (startDownramp cfg + u) = gaussian cfg u).
  { rewrite envelope_is_gaussian_of_offset. f_equal. unfold plateau_offset.
    destruct (Rgt_dec (startDownramp cfg + u) (startDownramp cfg)); lra. }
  specialize (H1 (startDownramp cfg + u)).
  specialize (H2 u).
  simpl in H1, H2. unfold R_dist in H1, H2.
  rewrite Henv, Hval in H1. rewrite gaussian_at_0 in H2.
  assert (D1 : Rabs (gaussian cfg u
                     - gaussian cfg (LASER_NOFOCUS_CONSTANT cfg))
               < gap / 2).
  { apply H1. split; [split; [exact I | lra] |].
    replace (startDownramp cfg + u - startDownramp cfg) with u by ring.
    rewrite Rabs_pos_eq; lra. }
  assert (D2 : Rabs (gaussian cfg u - AMPLITUDE cfg) < gap / 2).
  { apply H2. split; [split; [exact I | lra] |].
    rewrite Rminus_0_r, Rabs_pos_eq; lra. }
  unfold gap in *. revert D1 D2 Hgap.
  unfold Rabs; repeat destruct Rcase_abs; lra.
Qed.

Lemma envelope_jump_for_negative_plateau_witness :
  ~ continuity_pt (envelope cfg_negative_plateau)
      (startDownramp cfg_negative_plateau).
Proof.
  apply (envelope_jump_for_negative_plateau cfg_negative_plateau);
    simpl; lra.
Defined.

(** ** The first timestep *)

(** X8.  With a positive pulse length, a non-negative [RAMP_INIT] and a
    plateau of non-negative length, the envelope at timestep 0 is
    [AMPLITUDE * exp (- RAMP_INIT^2 / 16)] and the integration correction
    factor is [- RAMP_INIT / (4 * PULSE_LENGTH)]: the initial strength of
    the pulse is fixed by [RAMP_INIT] alone. *)
Theorem envelope_at_step_0 (cfg : LaserConfig) :
  0 < PULSE_LENGTH cfg ->
  0 <= RAMP_INIT cfg ->
  LASER_NOFOCUS_CONSTANT cfg >= 0 ->
  envelope cfg (runTime cfg 0)
  = AMPLITUDE cfg * exp (- (RAMP_INIT cfg * RAMP_INIT cfg) / 16)
  /\ integrationCorrectionFactor cfg (runTime cfg 0)
     = - RAMP_INIT cfg / (4 * PULSE_LENGTH cfg).
Proof.
  intros HP HR Hnf.
  assert (Ht : runTime cfg 0 = 0).
  { unfold runTime, of_uint32_t. simpl. ring. }
  rewrite Ht.
  assert (Heu : 0 <= endUpramp cfg).
  { unfold endUpramp, mue. nra. }
  assert (Hs2 : sqrt 2 * sqrt 2 = 2) by (apply sqrt_sqrt; lra).
  assert (Hs0 : sqrt 2 <> 0) by (pose proof (sqrt_lt_R0 2); lra).
  unfold envelope, integrationCorrectionFactor, envelope_and_correction.
  destruct (Rgt_dec 0 (startDownramp cfg)) as [Hd | Hd];
    [unfold startDownramp in Hd; unfold endUpramp in Heu; lra |].
  destruct (Rlt_dec 0 (endUpramp cfg)) as [Hu | Hu]; simpl.
  - unfold endUpramp, mue.
    replace (-0.5) with (- / 2) by lra. replace 0.5 with (/ 2) by lra.
    split.
    + f_equal. f_equal.
      replace 16 with (8 * (sqrt 2 * sqrt 2)) by lra.
      field. split; [exact Hs0 | lra].
    + field. lra.
  - assert (HR0 : RAMP_INIT cfg = 0).
    { unfold endUpramp, mue in *. nra. }
    rewrite HR0. split.
    + replace (- (0 * 0) / 16) with 0 by lra. rewrite exp_0. ring.
    + unfold Rdiv. ring.
Qed.

Lemma envelope_at_step_0_witness :
  envelope (cfg_plateau LINEAR_X) (runTime (cfg_plateau LINEAR_X) 0)
  = AMPLITUDE (cfg_plateau LINEAR_X)
    * exp (- (RAMP_INIT (cfg_plateau LINEAR_X)
              * RAMP_INIT (cfg_plateau LINEAR_X)) / 16)
  /\ integrationCorrectionFactor (cfg_plateau LINEAR_X)
       (runTime (cfg_plateau LINEAR_X) 0)
     = - RAMP_INIT (cfg_plateau LINEAR_X)
       / (4 * PULSE_LENGTH (cfg_plateau LINEAR_X)).
Proof.
  apply (envelope_at_step_0 (cfg_plateau LINEAR_X)); simpl; lra.
Defined.

(** * The returned field *)

Lemma t_and_phase_shift (cfg : LaserConfig) (t : R) (k : nat) :
  SPEED_OF_LIGHT cfg <> 0 -> WAVE_LENGTH cfg <> 0 ->
  t_and_phase cfg (t + INR k * (WAVE_LENGTH cfg / SPEED_OF_LIGHT cfg))
  = t_and_phase cfg t + 2 * INR k * PI.
Proof.
  intros Hc Hl. unfold t_and_phase, timeOszi, w, f. field. split; assumption.
Qed.

(** X9.  On the plateau the output has the period of the carrier: two
    timesteps whose times both lie on the plateau and differ by a whole
    number of periods [WAVE_LENGTH / SPEED_OF_LIGHT] give the same field
    vector and phase (speed of light and wavelength non-zero). *)
Theorem laserLongitudinal_plateau_periodic
  (cfg : LaserConfig) (n m : uint32_t) (k : nat) (phase phase' : float_X) :
  SPEED_OF_LIGHT cfg <> 0 ->
  WAVE_LENGTH cfg <> 0 ->
  runTime cfg m
  = runTime cfg n + INR k * (WAVE_LENGTH cfg / SPEED_OF_LIGHT cfg) ->
  endUpramp cfg <= runTime cfg n <= startDownramp cfg ->
  endUpramp cfg <= runTime cfg m <= startDownramp cfg ->
  laserLongitudinal cfg m phase' = laserLongitudinal cfg n phase.
Proof.
  intros Hc Hl Hshift Hn Hm.
  unfold laserLongitudinal, elong_at. cbv zeta.
  destruct (on_plateau_values cfg (runTime cfg n)) as [En In]; try lra.
  destruct (on_plateau_values cfg (runTime cfg m)) as [Em Im]; try lra.
  rewrite En, In, Em, Im, Hshift, t_and_phase_shift by assumption.
  now rewrite sin_period, cos_period.
Qed.

Lemma laserLongitudinal_plateau_periodic_witness :
  laserLongitudinal (cfg_plateau CIRCULAR) 5 1
  = laserLongitudinal (cfg_plateau CIRCULAR) 2 0.
Proof.
  apply (laserLongitudinal_plateau_periodic (cfg_plateau CIRCULAR) 2 5 3).
  - simpl. lra.
  - simpl. lra.
  - rewrite !runTime_cfg_plateau. simpl. lra.
  - rewrite runTime_cfg_plateau, endUpramp_cfg_plateau,
      startDownramp_cfg_plateau. simpl. lra.
  - rewrite runTime_cfg_plateau, endUpramp_cfg_plateau,
      startDownramp_cfg_plateau. simpl. lra.
Defined.

Lemma envelope_with_AMPLITUDE (cfg : LaserConfig) (k t : R) :
  envelope (with_AMPLITUDE cfg (k * AMPLITUDE cfg)) t = k * envelope cfg t
  /\ integrationCorrectionFactor (with_AMPLITUDE cfg (k * AMPLITUDE cfg)) t
     = integrationCorrectionFactor cfg t.
Proof.
  unfold envelope, integrationCorrectionFactor, envelope_and_correction.
  change (startDownramp (with_AMPLITUDE cfg (k * AMPLITUDE cfg)))
    with (startDownramp cfg).
  change (endUpramp (with_AMPLITUDE cfg (k * AMPLITUDE cfg)))
    with (endUpramp cfg).
  regime_cases cfg t; simpl; split; try reflexivity; ring.
Qed.

(** X10.  The field is linear in the amplitude: with [AMPLITUDE] multiplied
    by [k] and every other constant unchanged, the field vector returned
    for a timestep is [k] times the original one, in every polarisation
    mode and every regime. *)
Theorem laserLongitudinal_linear_in_amplitude
  (cfg : LaserConfig) (k : R) (currentStep : uint32_t) (phase : float_X) :
  fst (laserLongitudinal (with_AMPLITUDE cfg (k * AMPLITUDE cfg))
         currentStep phase)
  = vector_scale k (fst (laserLongitudinal cfg currentStep phase)).
Proof.
  unfold laserLongitudinal, elong_at. cbv zeta. simpl fst.
  set (t := runTime cfg currentStep).
  change (runTime (with_AMPLITUDE cfg (k * AMPLITUDE cfg)) currentStep) with t.
  change (t_and_phase (with_AMPLITUDE cfg (k * AMPLITUDE cfg)) t)
    with (t_and_phase cfg t).
  destruct (envelope_with_AMPLITUDE cfg k t) as [-> ->].
  simpl Polarisation.
  unfold vector_scale, to_float_X, float3_X.set_x, float3_X.set_z,
    float3_X.create.
  destruct (Polarisation cfg); cbn [float3_X.x float3_X.y float3_X.z];
    f_equal; unfold Rdiv; ring.
Qed.

(** X11.  In every polarisation mode the squared length of the returned
    field vector is at most [envelope^2 * (1 + ic^2)]; at a timestep on
    the plateau it is at most [AMPLITUDE^2]. *)
Theorem laserLongitudinal_magnitude
  (cfg : LaserConfig) (currentStep : uint32_t) (phase : float_X) :
  let t := runTime cfg currentStep in
  let E := fst (laserLongitudinal cfg currentStep phase) in
  vector_abs2 E
  <= envelope cfg t * envelope cfg t
     * (1 + integrationCorrectionFactor cfg t
            * integrationCorrectionFactor cfg t)
  /\ (endUpramp cfg <= t <= startDownramp cfg ->
      vector_abs2 E <= AMPLITUDE cfg * AMPLITUDE cfg).
Proof.
  intros t E.
  assert (Hgen : vector_abs2 E
    <= envelope cfg t * envelope cfg t
       * (1 + integrationCorrectionFactor cfg t
              * integrationCorrectionFactor cfg t)).
  { subst E. unfold laserLongitudinal, elong_at. cbv zeta. simpl fst. fold t.
    set (A := envelope cfg t).
    set (ic := integrationCorrectionFactor cfg t).
    set (tp := t_and_phase cfg t).
    pose proof (sin2_cos2 tp) as Hsc. unfold Rsqr in Hsc.
    set (s := sin tp) in *. set (c := cos tp) in *.
    assert (Hs2 : / sqrt 2 * / sqrt 2 = / 2).
    { rewrite <- Rinv_mult, sqrt_sqrt by lra. reflexivity. }
    assert (HAA : 0 <= A * A) by nra.
    assert (Hcs : (s + c * ic) * (s + c * ic) <= 1 + ic * ic).
    { assert (Hsq : 0 <= (s * ic - c) * (s * ic - c))
        by apply (Rle_0_sqr (s * ic - c)).
      assert (Hid : (s * s + c * c) * (1 + ic * ic)
                    - (s + c * ic) * (s + c * ic)
                    = (s * ic - c) * (s * ic - c)) by ring.
      rewrite Hsc in Hid. lra. }
    unfold vector_abs2, to_float_X.
    destruct (Polarisation cfg); simpl.
    - replace (A * (s + c * ic) * (A * (s + c * ic)) + 0 * 0 + 0 * 0)
        with (A * A * ((s + c * ic) * (s + c * ic))) by ring.
      apply Rmult_le_compat_l; assumption.
    - replace (0 * 0 + 0 * 0 + A * (s + c * ic) * (A * (s + c * ic)))
        with (A * A * ((s + c * ic) * (s + c * ic))) by ring.
      apply Rmult_le_compat_l; assumption.
    - unfold Rdiv.
      replace (A * / sqrt 2 * (s + c * ic) * (A * / sqrt 2 * (s + c * ic))
               + 0 * 0
               + A * / sqrt 2 * (c - s * ic) * (A * / sqrt 2 * (c - s * ic)))
        with (A * A * (/ sqrt 2 * / sqrt 2)
              * ((s * s + c * c) * (1 + ic * ic))) by ring.
      rewrite Hs2, Hsc.
      assert (0 <= 1 + ic * ic) by nra. nra.
    - assert (0 <= 1 + ic * ic) by nra. nra. }
  split; [exact Hgen |].
  intros Hplat.
  destruct (on_plateau_values cfg t) as [He Hi]; try lra.
  rewrite He, Hi in Hgen. lra.
Qed.

Lemma laserLongitudinal_magnitude_witness :
  vector_abs2 (fst (laserLongitudinal (cfg_plateau LINEAR_Z) 4 0))
  <= AMPLITUDE (cfg_plateau LINEAR_Z) * AMPLITUDE (cfg_plateau LINEAR_Z).
Proof.
  apply (laserLongitudinal_magnitude (cfg_plateau LINEAR_Z) 4 0).
  rewrite runTime_cfg_plateau, endUpramp_cfg_plateau,
    startDownramp_cfg_plateau. simpl. lra.
Defined.

(** * Instances and eligibility *)

(** X12.  Every instance that instantiation yields has the requested axis,
    and that axis is 0, 1 or 2: no instance with another axis exists. *)
Theorem instantiate_inversion
  (T_direction : size_t) (m : MomentumComponent.t) :
  MomentumComponent.instantiate T_direction = Instantiated m ->
  MomentumComponent.T_direction m = T_direction /\ (T_direction < 3)%N.
Proof.
  unfold MomentumComponent.instantiate, PMACC_CASSERT_MSG,
    MomentumComponent.assertion_ge_0, MomentumComponent.assertion_lt_3.
  destruct (0 <=? T_direction)%N; [| discriminate].
  destruct (T_direction <? 3)%N eqn:H3; [| discriminate].
  intros H. injection H as <-. split; [reflexivity | now apply N.ltb_lt].
Qed.

Lemma instantiate_inversion_witness :
  MomentumComponent.T_direction (MomentumComponent.mk 1) = 1%N /\ (1 < 3)%N.
Proof.
  apply (instantiate_inversion 1 (MomentumComponent.mk 1)). reflexivity.
Defined.

(** X13.  Eligibility depends only on which identifiers the frame
    declares, not on their order or multiplicity, and it is kept when
    identifiers are added: if every identifier of one species' frame is
    declared by another species' frame and the first species is eligible,
    so is the second, for instances of any axis. *)
Theorem eligibility_monotone
  (S1 S2 : Species) (solver1 solver2 : MomentumComponent.t) :
  incl (ValueTypeSeq (FrameType S1)) (ValueTypeSeq (FrameType S2)) ->
  eligible S1 solver1 = true ->
  eligible S2 solver2 = true.
Proof.
  intros Hincl.
  rewrite !eligible_MomentumComponent_unfold, !andb_true_iff,
    !existsb_identifier_In.
  intros [Hp Hm]. split; apply Hincl; assumption.
Qed.

Lemma eligibility_monotone_witness :
  eligible ions (MomentumComponent.mk 2) = true.
Proof.
  apply (eligibility_monotone electrons ions
           (MomentumComponent.mk 0) (MomentumComponent.mk 2)).
  - intros i Hi. simpl in *. intuition.
  - reflexivity.
Defined.
